(** * FRUSA-OpenAlex: career sequences and their classification

    A shallow embedding of the pure logic of

      - [process_authors.py]      (row cleaning, per-author aggregation, sort),
      - [filter_phd_authors.py] and [mark_french_phd_authors.py]
                                  (the scan for an author's first country),
      - [visualize_migration.py]  (the cohort filter, [classify_career] and
                                  the per-cohort percentages),

    together with the properties of these functions.

    Python strings are modelled by [string]; a character is a code point
    below 256.  The built-ins [str.strip], [str.lower] and [str.split] are
    written out on that range.  Indexing a list ([l[0]], [l[-1]]) raises
    [IndexError] on an empty list, which is kept explicit in [pyresult]. *)

From Stdlib Require Import List Bool Arith ZArith NArith Lia.
From Stdlib Require Import Ascii String DecimalString.
From Stdlib Require Import Sorted Permutation.
From Stdlib Require Import QArith.
Import ListNotations.

Close Scope Q_scope.
Open Scope string_scope.
Open Scope list_scope.

(** ** Python values and exceptions *)

Inductive pyexn : Type :=
| IndexError.

Inductive pyresult (A : Type) : Type :=
| Ok (a : A)
| Raise (e : pyexn).

Arguments Ok {A} a.
Arguments Raise {A} e.

Definition bind {A B : Type} (m : pyresult A) (k : A -> pyresult B) : pyresult B :=
  match m with
  | Ok a => k a
  | Raise e => Raise e
  end.

Notation "x <- m ;; k" := (bind m (fun x => k))
  (at level 61, m at next level, right associativity).

(** The values a cell of a pandas frame read from CSV may hold, as far as
    the scripts distinguish them: a string, the missing value [nan], or a
    number. *)
Inductive pyval : Type :=
| PyStr (s : string)
| PyNaN
| PyInt (n : Z).

Definition isinstance_str (v : pyval) : bool :=
  match v with
  | PyStr _ => true
  | _ => false
  end.

(** [l[0]] and [l[-1]]. *)
Definition item_first {A : Type} (l : list A) : pyresult A :=
  match l with
  | [] => Raise IndexError
  | x :: _ => Ok x
  end.

Fixpoint item_last {A : Type} (l : list A) : pyresult A :=
  match l with
  | [] => Raise IndexError
  | [x] => Ok x
  | _ :: l' => item_last l'
  end.

(** ** String built-ins *)

Module PyString.

(** [str.isspace] on one character: the code points below 256 that Python
    treats as white space. *)
Definition isspace (c : ascii) : bool :=
  let n := N_of_ascii c in
  ((9 <=? n) && (n <=? 13) || (28 <=? n) && (n <=? 32)
   || (n =? 133) || (n =? 160))%N.

Fixpoint lstrip (s : string) : string :=
  match s with
  | EmptyString => EmptyString
  | String c s' => if isspace c then lstrip s' else s
  end.

Fixpoint rstrip (s : string) : string :=
  match s with
  | EmptyString => EmptyString
  | String c s' =>
      match rstrip s' with
      | EmptyString => if isspace c then EmptyString else String c EmptyString
      | r => String c r
      end
  end.

(** [s.strip()] *)
Definition strip (s : string) : string := rstrip (lstrip s).

(** [str.lower] on one character: A-Z, and the upper-case letters of the
    Latin-1 block (all of 192..222 but the multiplication sign 215). *)
Definition lower_char (c : ascii) : ascii :=
  let n := N_of_ascii c in
  if ((65 <=? n) && (n <=? 90)
      || (192 <=? n) && (n <=? 222) && negb (n =? 215))%N
  then ascii_of_N (n + 32) else c.

Fixpoint lower (s : string) : string :=
  match s with
  | EmptyString => EmptyString
  | String c s' => String (lower_char c) (lower s')
  end.

(** [s.split(sep)] for a non-empty [sep]: cut at the occurrences of [sep],
    found left to right without overlap.  [skip] counts the characters of a
    separator just matched that are still to be passed over; [cur] is the
    piece being collected. *)
Fixpoint split_from (sep : string) (skip : nat) (cur : string) (s : string)
  : list string :=
  match s with
  | EmptyString => [cur]
  | String c s' =>
      match skip with
      | S k => split_from sep k cur s'
      | O =>
          if String.prefix sep s
          then cur :: split_from sep (String.length sep - 1) EmptyString s'
          else split_from sep 0 (cur ++ String c EmptyString) s'
      end
  end.

Definition split (sep : string) (s : string) : list string :=
  split_from sep 0 EmptyString s.

(** [sep.join(l)] *)
Definition join (sep : string) (l : list string) : string :=
  String.concat sep l.

(** [x in l] for a list or set of strings. *)
Definition contains (x : string) (l : list string) : bool :=
  existsb (String.eqb x) l.

(** [re.sub('[{}]', '', s)]: every brace is removed. *)
Definition is_brace (c : ascii) : bool :=
  (Ascii.eqb c "{" || Ascii.eqb c "}")%char.

Fixpoint remove_braces (s : string) : string :=
  match s with
  | EmptyString => EmptyString
  | String c s' =>
      if is_brace c then remove_braces s' else String c (remove_braces s')
  end.

End PyString.

Import PyString.

(** ** [visualize_migration.classify_career] *)

Inductive category : Type :=
| StayedInFrance
| RoundTripViaUS
| RoundTripNoUS
| ExpatriateToUS
| ExpatriateAbroadNoUS
| ComplexOngoing
| InvalidSequence.

(** The label the code returns for each category. *)
Definition label (c : category) : string :=
  match c with
  | StayedInFrance => "Stayed in France"
  | RoundTripViaUS => "Round-trip (via US)"
  | RoundTripNoUS => "Round-trip (no US)"
  | ExpatriateToUS => "Expatriate (to US)"
  | ExpatriateAbroadNoUS => "Expatriate (abroad, no US)"
  | ComplexOngoing => "Complex/Ongoing Migration"
  | InvalidSequence => "Invalid Sequence"
  end.

Definition category_eqb (a b : category) : bool :=
  match a, b with
  | StayedInFrance, StayedInFrance
  | RoundTripViaUS, RoundTripViaUS
  | RoundTripNoUS, RoundTripNoUS
  | ExpatriateToUS, ExpatriateToUS
  | ExpatriateAbroadNoUS, ExpatriateAbroadNoUS
  | ComplexOngoing, ComplexOngoing
  | InvalidSequence, InvalidSequence => true
  | _, _ => false
  end.

Module Classifier.

(** [countries = [c.strip() for c in sequence.split('->')]] *)
Definition countries (sequence : string) : list string :=
  map strip (split "->" sequence).

(** [all(c == 'FR' for c in countries)] *)
Definition is_always_france (cs : list string) : bool :=
  forallb (fun c => c =? "FR") cs.

(** [set(c.strip() for c in last_location_raw.split(','))]; only membership
    is asked of the set, so it is kept as the list of its elements. *)
Definition last_locations (last_location_raw : string) : list string :=
  map strip (split "," last_location_raw).

(** [any('US' in c.split(',') for c in countries)] *)
Definition journey_had_us (cs : list string) : bool :=
  existsb (fun c => contains "US" (split "," c)) cs.

(** [last_location_raw == 'FR'] *)
Definition is_last_only_france (last_location_raw : string) : bool :=
  last_location_raw =? "FR".

(** The part of [classify_career] below the string test and the
    always-France test. *)
Definition classify_left (cs : list string) : pyresult category :=
  last_location_raw <- item_last cs ;;
  let locs := last_locations last_location_raw in
  let had_us := journey_had_us cs in
  if is_last_only_france last_location_raw then
    if had_us then Ok RoundTripViaUS else Ok RoundTripNoUS
  else
    let is_last_in_us := contains "US" locs in
    let is_last_in_france_too := contains "FR" locs in
    if is_last_in_us && negb is_last_in_france_too then Ok ExpatriateToUS
    else if negb is_last_in_us && negb is_last_in_france_too
         then Ok ExpatriateAbroadNoUS
         else Ok ComplexOngoing.

Definition classify_career (sequence : pyval) : pyresult category :=
  match sequence with
  | PyStr s =>
      let cs := countries s in
      if is_always_france cs then Ok StayedInFrance
      else classify_left cs
  | _ => Ok InvalidSequence
  end.

(** Whether a run of [classify_career] on a string reaches the branch
    guarded by [is_last_only_france]. *)
Definition takes_round_trip_branch (s : string) : bool :=
  let cs := countries s in
  negb (is_always_france cs) &&
  match item_last cs with
  | Ok last_location_raw => is_last_only_france last_location_raw
  | Raise _ => false
  end.

End Classifier.


(** ** The first country of a sequence
    ([filter_phd_authors.main], [mark_french_phd_authors.prepare_author_urls]) *)

Module FirstCountry.

(** [countries = [c.strip() for c in country_sequence.split(' -> ')]] *)
Definition countries (country_sequence : string) : list string :=
  map strip (split " -> " country_sequence).

(** The loop of [filter_phd_authors.main]:
    [if country and country_lower != 'empty' and country_lower != '<empty>'] *)
Fixpoint scan (cs : list string) : pyresult (option string) :=
  match cs with
  | [] => Ok None
  | country :: cs' =>
      let country_lower := lower country in
      if negb (country =? "") && negb (country_lower =? "empty")
         && negb (country_lower =? "<empty>")
      then
        tok <- item_first (split "," country) ;;
        Ok (Some (strip tok))
      else scan cs'
  end.

(** The loop of [mark_french_phd_authors.prepare_author_urls]:
    [if country and country.lower() not in ['empty', '<empty>']] *)
Fixpoint scan_mark (cs : list string) : pyresult (option string) :=
  match cs with
  | [] => Ok None
  | country :: cs' =>
      if negb (country =? "")
         && negb (contains (lower country) ["empty"; "<empty>"])
      then
        tok <- item_first (split "," country) ;;
        Ok (Some (strip tok))
      else scan_mark cs'
  end.

(** [first_country] as [filter_phd_authors.main] computes it for one row;
    the outer [None] is the [continue] taken when the cell is not a string
    or is the empty string. *)
Definition first_country (country_sequence : pyval)
  : pyresult (option (option string)) :=
  match country_sequence with
  | PyStr s =>
      if s =? "" then Ok None
      else r <- scan (countries s) ;; Ok (Some r)
  | _ => Ok None
  end.

(** [started_in_france] of [prepare_author_urls], and the test
    [first_country != 'FR'] of [main] negated. *)
Definition started_in_france (country_sequence : pyval) : pyresult bool :=
  r <- first_country country_sequence ;;
  match r with
  | Some (Some fc) => Ok (fc =? "FR")
  | _ => Ok false
  end.

(** An entry that carries no country: the empty field, or one of the two
    placeholder tokens in any mix of upper and lower case. *)
Definition is_placeholder (country : string) : bool :=
  (country =? "") || (lower country =? "empty") || (lower country =? "<empty>").

(** The spellings of a lower-case token that differ from it only in the
    case of its letters a-z. *)
Definition is_ascii_lower (c : ascii) : bool :=
  let n := N_of_ascii c in ((97 <=? n) && (n <=? 122))%N.

Definition upper_of_lower (c : ascii) : ascii :=
  ascii_of_N (N_of_ascii c - 32).

Fixpoint case_variants (token : string) : list string :=
  match token with
  | EmptyString => [EmptyString]
  | String c token' =>
      flat_map (fun t =>
                  if is_ascii_lower c
                  then [String c t; String (upper_of_lower c) t]
                  else [String c t])
               (case_variants token')
  end.

End FirstCountry.

(** ** [process_authors.create_author_sequences_optimized] *)

(** [str(n)] for an integer. *)
Definition str_of_int (n : Z) : string :=
  DecimalString.NilZero.string_of_int (Z.to_int n).

(** A numeric parse that reads the plain decimal integers, the form
    [str_of_int] writes: an optional minus sign and at least one digit.
    It serves where a concrete parse is needed to run the definitions; the
    definitions themselves take the parse as a parameter. *)
Definition parse_decimal (s : string) : option Z :=
  match s with
  | EmptyString => None
  | String "-" EmptyString => None
  | _ =>
      match DecimalString.NilZero.int_of_string s with
      | Some d => Some (Z.of_int d)
      | None => None
      end
  end.

Module ProcessAuthors.

(** One row of a chunk read with [dtype=str]: each of the three columns in
    use holds a string or is missing ([None]). *)
Record raw_row : Type := mk_raw_row {
  author_id : option string;
  publication_year : option string;
  country_codes : option string
}.

(** One item of [author_data[author_id]]: [(publication_year, country_codes)]. *)
Definition record : Type := (Z * string)%type.

(** [author_data], a [defaultdict(list)]; its items are kept in the order
    in which the keys were first inserted, as a Python dict keeps them. *)
Definition author_dict : Type := list (string * list record).

Fixpoint dict_get (k : string) (d : author_dict) : option (list record) :=
  match d with
  | [] => None
  | (k', l) :: d' => if k =? k' then Some l else dict_get k d'
  end.

(** [author_data[k].append(v)] *)
Fixpoint dict_append (k : string) (v : record) (d : author_dict) : author_dict :=
  match d with
  | [] => [(k, [v])]
  | (k', l) :: d' =>
      if k =? k' then (k', l ++ [v]) :: d'
      else (k', l) :: dict_append k v d'
  end.

(** [records.sort(key=lambda x: x[0])]: Python's sort is stable.  An item
    is put in front of the first item whose year is not smaller. *)
Fixpoint insert_by_year (r : record) (l : list record) : list record :=
  match l with
  | [] => [r]
  | x :: l' =>
      if (fst r <=? fst x)%Z then r :: x :: l'
      else x :: insert_by_year r l'
  end.

Fixpoint sort_by_year (l : list record) : list record :=
  match l with
  | [] => []
  | r :: l' => insert_by_year r (sort_by_year l')
  end.

(** The order the sort puts the items in, and the items of one year. *)
Definition year_le (a b : record) : Prop := (fst a <= fst b)%Z.

Definition in_year (y : Z) (r : record) : bool := (fst r =? y)%Z.

(** [author_data[k]] without the insertion of a default: the empty list
    for a key that is not there. *)
Definition records_of (k : string) (d : author_dict) : list record :=
  match dict_get k d with
  | Some l => l
  | None => []
  end.

(** One item of [final_results]. *)
Record result_row : Type := mk_result_row {
  res_author_id : string;
  publication_years_sequence : string;
  country_codes_sequence : string
}.

(** What a run leaves behind: the lines printed per chunk
    ([i + 1], [total_rows_processed]) and the rows written to the output
    file. *)
Record run_output : Type := mk_run_output {
  printed : list (nat * nat);
  written : list result_row
}.

Section WithNumericParse.

(** [pd.to_numeric(_, errors='coerce')] followed by [astype('int32')] on one
    cell: [None] where [to_numeric] gives [nan]. *)
Variable to_numeric : string -> option Z.

(** Lines 44-46: the year column after [to_numeric]; a missing cell stays
    missing. *)
Definition coerce_year (r : raw_row) : option Z :=
  match publication_year r with
  | Some y => to_numeric y
  | None => None
  end.

(** Line 49: [fillna('<empty>')] and the removal of braces. *)
Definition clean_country_codes (c : option string) : string :=
  remove_braces (match c with Some s => s | None => "<empty>" end).

(** The rows of a chunk that [dropna(subset=['author_id',
    'publication_year'])] keeps, cleaned: [None] for a dropped row. *)
Definition clean_row (r : raw_row) : option (string * record) :=
  match author_id r, coerce_year r with
  | Some a, Some y => Some (a, (y, clean_country_codes (country_codes r)))
  | _, _ => None
  end.

Fixpoint clean_chunk (chunk : list raw_row) : list (string * record) :=
  match chunk with
  | [] => []
  | r :: chunk' =>
      match clean_row r with
      | Some e => e :: clean_chunk chunk'
      | None => clean_chunk chunk'
      end
  end.

(** Lines 52-53: the loop over [chunk.itertuples()]. *)
Definition aggregate (rows : list (string * record)) (d : author_dict)
  : author_dict :=
  fold_left (fun d e => dict_append (fst e) (snd e) d) rows d.

(** The state carried from chunk to chunk. *)
Record state : Type := mk_state {
  author_data : author_dict;
  total_rows_processed : nat;
  log : list (nat * nat)
}.

Definition initial : state := mk_state [] 0 [].

(** The body of the loop over [enumerate(chunk_iterator)]. *)
Definition process_chunk (st : state) (i : nat) (chunk : list raw_row) : state :=
  let rows := clean_chunk chunk in
  let total := total_rows_processed st + List.length rows in
  mk_state (aggregate rows (author_data st)) total (log st ++ [(i + 1, total)]).

Fixpoint process_chunks (st : state) (i : nat) (chunks : list (list raw_row))
  : state :=
  match chunks with
  | [] => st
  | chunk :: chunks' => process_chunks (process_chunk st i chunk) (S i) chunks'
  end.

(** Lines 61-72. *)
Definition author_sequences (d : author_dict) : list (string * list record) :=
  map (fun kv => (fst kv, sort_by_year (snd kv))) d.

Definition to_result_row (kv : string * list record) : result_row :=
  mk_result_row (fst kv)
    (join " -> " (map (fun r => str_of_int (fst r)) (snd kv)))
    (join " -> " (map snd (snd kv))).

Definition create_author_sequences_optimized (chunks : list (list raw_row))
  : run_output :=
  let st := process_chunks initial 0 chunks in
  mk_run_output (log st) (map to_result_row (author_sequences (author_data st))).

(** The events of one author, in the order of arrival over all chunks. *)
Definition events_of (a : string) (chunks : list (list raw_row)) : list record :=
  map snd (filter (fun e => fst e =? a) (clean_chunk (List.concat chunks))).




End WithNumericParse.

End ProcessAuthors.

(** ** [visualize_migration.create_migration_visual] *)

Module Visualize.

(** One row of the frame read from the sequences file; a cell of either
    column is a string or missing ([None]). *)
Record seq_row : Type := mk_seq_row {
  author_id : string;
  publication_years_sequence : option string;
  country_codes_sequence : option string
}.

(** A frame indexed by start year with one column per category. *)
Record frame : Type := mk_frame {
  index : list Z;
  columns : list category;
  value : Z -> category -> Q
}.

(** [all_categories], lines 103-110. *)
Definition all_categories : list category :=
  [StayedInFrance; RoundTripViaUS; RoundTripNoUS;
   ExpatriateToUS; ExpatriateAbroadNoUS; ComplexOngoing].

(** Every value [classify_career] may return, in the order of the labels,
    which is the order in which [unstack] lays out the columns. *)
Definition categories_by_label : list category :=
  [ComplexOngoing; ExpatriateAbroadNoUS; ExpatriateToUS; InvalidSequence;
   RoundTripNoUS; RoundTripViaUS; StayedInFrance].

Definition has_category (c : category) (l : list category) : bool :=
  existsb (category_eqb c) l.

(** The sorted keys of [groupby]. *)
Fixpoint insert_year (y : Z) (l : list Z) : list Z :=
  match l with
  | [] => [y]
  | x :: l' =>
      if (y <? x)%Z then y :: x :: l'
      else if (y =? x)%Z then x :: l'
      else x :: insert_year y l'
  end.

Definition group_keys (ys : list Z) : list Z :=
  fold_right insert_year [] ys.

(** [value_counts()] of one group at one category. *)
Definition count (y : Z) (c : category) (cl : list (Z * category)) : nat :=
  List.length (filter (fun yc => (fst yc =? y)%Z && category_eqb (snd yc) c) cl).

(** Line 94: [groupby('min_year')['category'].value_counts().unstack(fill_value=0)] *)
Definition cohort_trends (cl : list (Z * category)) : frame :=
  mk_frame (group_keys (map fst cl))
           (filter (fun c => has_category c (map snd cl)) categories_by_label)
           (fun y c => inject_Z (Z.of_nat (count y c cl))).

(** [f.sum(axis=1)] at one row. *)
Definition row_sum (f : frame) (y : Z) : Q :=
  fold_right Qplus 0%Q (map (value f y) (columns f)).

(** Line 97: [f.div(f.sum(axis=1), axis=0) * 100] *)
Definition percent_of_row (f : frame) : frame :=
  mk_frame (index f) (columns f)
           (fun y c => (value f y c / row_sum f y * 100)%Q).

(** Line 122: [f.reindex(columns=cols, fill_value=0)] *)
Definition reindex_columns (cols : list category) (f : frame) : frame :=
  mk_frame (index f) cols
           (fun y c => if has_category c (columns f) then value f y c else 0%Q).

Definition cohort_percentages (cl : list (Z * category)) : frame :=
  reindex_columns all_categories (percent_of_row (cohort_trends cl)).

Section WithNumericParse.

(** [pd.to_numeric(_, errors='coerce')] followed by [astype(int)] on one
    cell: [None] where [to_numeric] gives [nan]. *)
Variable to_numeric : string -> option Z.

(** Line 74: [dropna(subset=[...])] keeps the rows with both sequences. *)
Definition has_sequences (r : seq_row) : bool :=
  match publication_years_sequence r, country_codes_sequence r with
  | Some _, Some _ => true
  | _, _ => false
  end.

(** Line 75: the first item of the years sequence, as a number. *)
Definition min_year (r : seq_row) : option Z :=
  match publication_years_sequence r with
  | Some ys =>
      match hd_error (split " -> " ys) with
      | Some y0 => to_numeric y0
      | None => None
      end
  | None => None
  end.

(** Lines 75-79: the column [min_year] is added and the rows without it
    are dropped. *)
Fixpoint with_min_year (rows : list seq_row) : list (seq_row * Z) :=
  match rows with
  | [] => []
  | r :: rows' =>
      match min_year r with
      | Some y => (r, y) :: with_min_year rows'
      | None => with_min_year rows'
      end
  end.

(** Line 81: [df[df['min_year'] > 1990]] *)
Definition df_post_1990 (rows : list seq_row) : list (seq_row * Z) :=
  filter (fun ry => (1990 <? snd ry)%Z)
         (with_min_year (filter has_sequences rows)).

(** Line 83: [country_codes_sequence.str.split(' -> ').str[0]] *)
Definition first_country (r : seq_row) : option string :=
  match country_codes_sequence r with
  | Some cs => hd_error (split " -> " cs)
  | None => None
  end.

(** Line 84: [df_post_1990[df_post_1990['first_country'] == 'FR']] *)
Definition fr_starters (rows : list seq_row) : list (seq_row * Z) :=
  filter (fun ry => match first_country (fst ry) with
                    | Some fc => fc =? "FR"
                    | None => false
                    end)
         (df_post_1990 rows).

Definition cell (c : option string) : pyval :=
  match c with
  | Some s => PyStr s
  | None => PyNaN
  end.

(** Line 91: [country_codes_sequence.apply(classify_career)], kept next to
    [min_year]. *)
Fixpoint apply_classify (l : list (seq_row * Z)) : pyresult (list (Z * category)) :=
  match l with
  | [] => Ok []
  | ry :: l' =>
      c <- Classifier.classify_career (cell (country_codes_sequence (fst ry))) ;;
      rest <- apply_classify l' ;;
      Ok ((snd ry, c) :: rest)
  end.

(** The arguments [classify_career] is called with during a run. *)
Definition classify_calls (rows : list seq_row) : list pyval :=
  map (fun ry => cell (country_codes_sequence (fst ry))) (fr_starters rows).

(** The percentages frame of a run; [None] when the run stops at
    [sys.exit(0)] because no row is left. *)
Definition create_migration_visual (rows : list seq_row)
  : pyresult (option frame) :=
  match fr_starters rows with
  | [] => Ok None
  | starters =>
      cl <- apply_classify starters ;;
      Ok (Some (cohort_percentages cl))
  end.

End WithNumericParse.

End Visualize.

(** * Properties *)

(** ** Lists and strings *)

Lemma split_from_not_nil (sep : string) (s : string) :
  forall skip cur, split_from sep skip cur s <> [].
Proof.
  induction s as [|c s IH]; intros skip cur; cbn [split_from].
  - discriminate.
  - destruct skip as [|k].
    + destruct (String.prefix sep (String c s)); [discriminate | apply IH].
    + apply IH.
Qed.

Lemma split_not_nil (sep s : string) : split sep s <> [].
Proof. apply split_from_not_nil. Qed.

Lemma item_last_ok {A : Type} (l : list A) :
  l <> [] -> exists x, item_last l = Ok x.
Proof.
  induction l as [|a l IH]; intros Hne; [congruence|].
  destruct l as [|b l].
  - exists a. reflexivity.
  - destruct IH as [x Hx]; [discriminate|].
    exists x. exact Hx.
Qed.

Lemma item_last_in {A : Type} (l : list A) (x : A) :
  item_last l = Ok x -> In x l.
Proof.
  induction l as [|a l IH]; [discriminate|].
  destruct l as [|b l]; intros H.
  - injection H as ->. now left.
  - right. now apply IH.
Qed.

Lemma item_last_map {A B : Type} (f : A -> B) (l : list A) (x : A) :
  item_last l = Ok x -> item_last (map f l) = Ok (f x).
Proof.
  induction l as [|a l IH]; [discriminate|].
  destruct l as [|b l]; intros H.
  - injection H as ->. reflexivity.
  - change (item_last (map f (b :: l)) = Ok (f x)). now apply IH.
Qed.

Lemma contains_In (x : string) (l : list string) :
  contains x l = true <-> In x l.
Proof.
  unfold contains. rewrite existsb_exists. split.
  - intros [y [Hy Heq]]. apply String.eqb_eq in Heq. now subst.
  - intros H. exists x. split; [exact H | apply String.eqb_refl].
Qed.

Lemma contains_not_In (x : string) (l : list string) :
  contains x l = false <-> ~ In x l.
Proof.
  rewrite <- contains_In. destruct (contains x l); split; congruence.
Qed.

(** ** The classifier *)

Lemma countries_not_nil (s : string) : Classifier.countries s <> [].
Proof.
  unfold Classifier.countries. intros H.
  apply map_eq_nil in H. now apply split_not_nil in H.
Qed.

Lemma is_always_france_Forall (cs : list string) :
  Classifier.is_always_france cs = true <-> Forall (fun c => c = "FR") cs.
Proof.
  unfold Classifier.is_always_france.
  rewrite forallb_forall, Forall_forall.
  split; intros H c Hc; specialize (H c Hc); now apply String.eqb_eq.
Qed.

Lemma journey_had_us_exists (cs : list string) :
  Classifier.journey_had_us cs = true <->
  exists c, In c cs /\ In "US" (split "," c).
Proof.
  unfold Classifier.journey_had_us. rewrite existsb_exists.
  split; intros [c [Hc Hus]]; exists c; split; auto; now apply contains_In.
Qed.

Lemma last_not_france_not_always (cs : list string) (last : string) :
  item_last cs = Ok last -> last <> "FR" ->
  Classifier.is_always_france cs = false.
Proof.
  intros Hlast Hne.
  destruct (Classifier.is_always_france cs) eqn:E; [|reflexivity].
  apply is_always_france_Forall in E.
  rewrite Forall_forall in E.
  elim Hne. apply E. now apply item_last_in.
Qed.

(** The value of [classify_career] on a string once the last entry is
    known. *)
Lemma classify_career_unfold (s last : string) :
  item_last (Classifier.countries s) = Ok last ->
  Classifier.classify_career (PyStr s) =
  Ok (if Classifier.is_always_france (Classifier.countries s) then StayedInFrance
      else if last =? "FR" then
        if Classifier.journey_had_us (Classifier.countries s)
        then RoundTripViaUS else RoundTripNoUS
      else if contains "US" (Classifier.last_locations last)
              && negb (contains "FR" (Classifier.last_locations last))
           then ExpatriateToUS
      else if negb (contains "US" (Classifier.last_locations last))
              && negb (contains "FR" (Classifier.last_locations last))
           then ExpatriateAbroadNoUS
      else ComplexOngoing).
Proof.
  intros Hlast. unfold Classifier.classify_career, Classifier.classify_left.
  rewrite Hlast. cbn [bind]. unfold Classifier.is_last_only_france.
  repeat match goal with |- context [if ?b then _ else _] => destruct b end;
    reflexivity.
Qed.

Lemma classify_career_on_string (s : string) :
  exists c, Classifier.classify_career (PyStr s) = Ok c
            /\ In c Visualize.all_categories.
Proof.
  destruct (item_last_ok (Classifier.countries s) (countries_not_nil s))
    as [last Hlast].
  rewrite (classify_career_unfold s last Hlast).
  eexists. split; [reflexivity|].
  unfold Visualize.all_categories.
  repeat match goal with |- context [if ?b then _ else _] => destruct b end;
    simpl; tauto.
Qed.

(** C10.  On every string, [classify_career] returns without raising, and
    what it returns is one of the six career categories; it returns
    [InvalidSequence] exactly on the values that are not strings. *)
Theorem classify_career_total :
  (forall s : string,
      exists c, Classifier.classify_career (PyStr s) = Ok c
                /\ In c Visualize.all_categories)
  /\ ~ In InvalidSequence Visualize.all_categories
  /\ (forall v : pyval,
         Classifier.classify_career v = Ok InvalidSequence
         <-> isinstance_str v = false).
Proof.
  split; [exact classify_career_on_string|]. split.
  - unfold Visualize.all_categories. simpl. intuition discriminate.
  - intros v. destruct v as [s| |n]; simpl; try (split; reflexivity).
    split; [|discriminate].
    destruct (classify_career_on_string s) as [c [Hc Hin]].
    change (Classifier.classify_career (PyStr s) = Ok InvalidSequence -> true = false).
    rewrite Hc. intros H. injection H as ->.
    unfold Visualize.all_categories in Hin. simpl in Hin.
    intuition discriminate.
Qed.


(** C1, as the code has it.  For every sequence that is not FR throughout
    and whose last entry is FR alone, [classify_career] returns
    [RoundTripViaUS] if US is a token of the comma-separated list of some
    entry, and [RoundTripNoUS] otherwise. *)
Theorem round_trip_when_last_is_france (s : string) :
  Classifier.is_always_france (Classifier.countries s) = false ->
  item_last (Classifier.countries s) = Ok "FR" ->
  ((exists c, In c (Classifier.countries s) /\ In "US" (split "," c)) ->
   Classifier.classify_career (PyStr s) = Ok RoundTripViaUS)
  /\ (~ (exists c, In c (Classifier.countries s) /\ In "US" (split "," c)) ->
      Classifier.classify_career (PyStr s) = Ok RoundTripNoUS).
Proof.
  intros Hnot Hlast.
  rewrite (classify_career_unfold s "FR" Hlast), Hnot.
  change ("FR" =? "FR") with true. cbv iota.
  rewrite <- journey_had_us_exists.
  destruct (Classifier.journey_had_us (Classifier.countries s)); split;
    intros H; try reflexivity; congruence.
Qed.

Lemma round_trip_when_last_is_france_witness :
  Classifier.classify_career (PyStr "FR -> US -> FR") = Ok RoundTripViaUS
  /\ Classifier.classify_career (PyStr "FR -> DE -> FR") = Ok RoundTripNoUS.
Proof.
  split.
  - apply (round_trip_when_last_is_france "FR -> US -> FR");
      [reflexivity | reflexivity |].
    exists "US". split; [right; left; reflexivity | left; reflexivity].
  - apply (round_trip_when_last_is_france "FR -> DE -> FR");
      [reflexivity | reflexivity |].
    intros [c [Hc Hus]]. simpl in Hc.
    destruct Hc as [<-|[<-|[<-|[]]]]; simpl in Hus;
      destruct Hus as [H|[]]; discriminate H.
Defined.

(** C1 as stated fails on the sequence FR: its last entry is FR alone and
    no entry holds US, yet the result is [StayedInFrance], not
    [RoundTripNoUS]. *)
Lemma round_trip_fails_on_always_france :
  item_last (Classifier.countries "FR") = Ok "FR"
  /\ Classifier.journey_had_us (Classifier.countries "FR") = false
  /\ Classifier.classify_career (PyStr "FR") = Ok StayedInFrance
  /\ Classifier.classify_career (PyStr "FR") <> Ok RoundTripNoUS.
Proof. repeat split; try reflexivity. discriminate. Qed.

(** C2, as the code has it.  The test for a return to France compares the
    last entry, once the white space around it is removed, with the string
    FR, character by character.  When the trimmed entry is any other string
    the branch guarded by [is_last_only_france] is not taken and neither
    round-trip category is returned; when it is FR and the sequence is not
    FR throughout, the branch is taken. *)
Theorem round_trip_branch_compares_trimmed_last (s raw : string) :
  item_last (split "->" s) = Ok raw ->
  (strip raw <> "FR" ->
   Classifier.takes_round_trip_branch s = false
   /\ Classifier.classify_career (PyStr s) <> Ok RoundTripViaUS
   /\ Classifier.classify_career (PyStr s) <> Ok RoundTripNoUS)
  /\ (strip raw = "FR" ->
      Classifier.is_always_france (Classifier.countries s) = false ->
      Classifier.takes_round_trip_branch s = true).
Proof.
  intros Hraw.
  pose proof (item_last_map strip _ _ Hraw) as Hlast.
  fold (Classifier.countries s) in Hlast.
  unfold Classifier.takes_round_trip_branch.
  rewrite (classify_career_unfold s _ Hlast), Hlast.
  unfold Classifier.is_last_only_france.
  split.
  - intros Hne. apply String.eqb_neq in Hne. rewrite Hne.
    split; [apply andb_false_r|].
    split;
      repeat match goal with |- context [if ?b then _ else _] => destruct b end;
      discriminate.
  - intros Heq Hnot. rewrite Hnot, Heq. reflexivity.
Qed.

Lemma round_trip_branch_compares_trimmed_last_witness :
  Classifier.takes_round_trip_branch "FR -> US -> fr" = false
  /\ Classifier.takes_round_trip_branch "FR -> US -> FR,FR" = false.
Proof.
  split.
  - apply (round_trip_branch_compares_trimmed_last "FR -> US -> fr" " fr");
      [reflexivity | discriminate].
  - apply (round_trip_branch_compares_trimmed_last "FR -> US -> FR,FR" " FR,FR");
      [reflexivity | discriminate].
Defined.

(** C2 as stated fails on a last entry that is FR followed by a blank: the
    entry is a string other than FR, whether the sequence is cut at the
    arrows or at the separator with its blanks, and the branch is taken. *)
Lemma round_trip_branch_taken_on_trailing_blank :
  item_last (split "->" "FR -> US -> FR ") = Ok " FR "
  /\ item_last (split " -> " "FR -> US -> FR ") = Ok "FR "
  /\ " FR " <> "FR" /\ "FR " <> "FR"
  /\ Classifier.takes_round_trip_branch "FR -> US -> FR " = true
  /\ Classifier.classify_career (PyStr "FR -> US -> FR ") = Ok RoundTripViaUS.
Proof. repeat split; try reflexivity; discriminate. Qed.

(** C6.  For every sequence whose last entry is not FR alone:
    [ExpatriateToUS] when US is among the codes of the last entry and FR is
    not, [ExpatriateAbroadNoUS] when neither is, and [ComplexOngoing] in the
    remaining cases, those where FR is among them. *)
Theorem expatriate_or_complex_when_last_is_not_france (s last : string) :
  item_last (Classifier.countries s) = Ok last ->
  last <> "FR" ->
  (In "US" (Classifier.last_locations last) ->
   ~ In "FR" (Classifier.last_locations last) ->
   Classifier.classify_career (PyStr s) = Ok ExpatriateToUS)
  /\ (~ In "US" (Classifier.last_locations last) ->
      ~ In "FR" (Classifier.last_locations last) ->
      Classifier.classify_career (PyStr s) = Ok ExpatriateAbroadNoUS)
  /\ (In "FR" (Classifier.last_locations last) ->
      Classifier.classify_career (PyStr s) = Ok ComplexOngoing).
Proof.
  intros Hlast Hne.
  rewrite (classify_career_unfold s last Hlast).
  rewrite (last_not_france_not_always _ _ Hlast Hne).
  apply String.eqb_neq in Hne. rewrite Hne.
  repeat split.
  - intros Hus Hfr.
    apply contains_In in Hus. apply contains_not_In in Hfr.
    now rewrite Hus, Hfr.
  - intros Hus Hfr.
    apply contains_not_In in Hus. apply contains_not_In in Hfr.
    now rewrite Hus, Hfr.
  - intros Hfr. apply contains_In in Hfr. rewrite Hfr.
    now rewrite !andb_false_r.
Qed.

Lemma expatriate_or_complex_when_last_is_not_france_witness :
  Classifier.classify_career (PyStr "FR -> DE") = Ok ExpatriateAbroadNoUS
  /\ Classifier.classify_career (PyStr "FR -> FR,US") = Ok ComplexOngoing
  /\ Classifier.classify_career (PyStr "FR -> US") = Ok ExpatriateToUS.
Proof.
  split; [|split].
  - apply (expatriate_or_complex_when_last_is_not_france "FR -> DE" "DE");
      [reflexivity | discriminate | |];
      simpl; intros [H|[]]; discriminate H.
  - apply (expatriate_or_complex_when_last_is_not_france "FR -> FR,US" "FR,US");
      [reflexivity | discriminate |].
    left. reflexivity.
  - apply (expatriate_or_complex_when_last_is_not_france "FR -> US" "US");
      [reflexivity | discriminate | |].
    + left. reflexivity.
    + simpl. intros [H|[]]. discriminate H.
Defined.

(** ** The scan for the first country *)

Lemma scan_guard_placeholder (country : string) :
  negb (country =? "") && negb (lower country =? "empty")
  && negb (lower country =? "<empty>")
  = negb (FirstCountry.is_placeholder country).
Proof.
  unfold FirstCountry.is_placeholder.
  now rewrite !negb_orb.
Qed.

(** The two scripts run the same scan. *)
Lemma scan_mark_scan (cs : list string) :
  FirstCountry.scan_mark cs = FirstCountry.scan cs.
Proof.
  induction cs as [|c cs IH]; [reflexivity|].
  cbn [FirstCountry.scan_mark FirstCountry.scan].
  rewrite IH. unfold contains. cbn [existsb].
  rewrite orb_false_r, negb_orb, andb_assoc. reflexivity.
Qed.

Lemma scan_skips_placeholders (skipped rest : list string) :
  Forall (fun e => FirstCountry.is_placeholder e = true) skipped ->
  FirstCountry.scan (skipped ++ rest) = FirstCountry.scan rest.
Proof.
  induction 1 as [|e skipped He _ IH]; [reflexivity|].
  cbn [app FirstCountry.scan].
  rewrite scan_guard_placeholder, He. exact IH.
Qed.

(** The strings that [lower] sends to a placeholder token are its case
    variants. *)
Ltac by_ascii_cases x :=
  destruct x as [[] [] [] [] [] [] [] []]; vm_compute;
  intros H; try discriminate H; auto.

Lemma lower_char_preimage (x y : ascii) :
  In y ["e"; "m"; "p"; "t"; "y"; "<"; ">"]%char ->
  lower_char x = y ->
  x = y \/ (FirstCountry.is_ascii_lower y = true
            /\ x = FirstCountry.upper_of_lower y).
Proof.
  intros Hy.
  repeat (destruct Hy as [<-|Hy]; [by_ascii_cases x|]). destruct Hy.
Qed.

Lemma lower_char_image (y : ascii) :
  In y ["e"; "m"; "p"; "t"; "y"; "<"; ">"]%char ->
  lower_char y = y
  /\ (FirstCountry.is_ascii_lower y = true ->
      lower_char (FirstCountry.upper_of_lower y) = y).
Proof.
  intros Hy.
  repeat (destruct Hy as [<-|Hy];
          [split; [reflexivity | intros H; (reflexivity || discriminate H)]|]).
  destruct Hy.
Qed.

Lemma lower_case_variants (token : string) :
  Forall (fun y => In y ["e"; "m"; "p"; "t"; "y"; "<"; ">"]%char)
         (list_ascii_of_string token) ->
  forall c : string, lower c = token <-> In c (FirstCountry.case_variants token).
Proof.
  induction token as [|y token IH]; cbn [list_ascii_of_string]; intros Hal c.
  - cbn [FirstCountry.case_variants In]. destruct c; simpl; split;
      intros H; try discriminate; auto.
    destruct H as [H|[]]. discriminate H.
  - inversion Hal as [|? ? Hy Hal']; subst.
    cbn [FirstCountry.case_variants]. rewrite in_flat_map.
    destruct (lower_char_image y Hy) as [Hlow Hup].
    split.
    + intros H. destruct c as [|x c']; [discriminate|].
      cbn [lower] in H. injection H as Hx Hc'.
      exists c'. split; [now apply IH|].
      destruct (lower_char_preimage x y Hy Hx) as [->|[Hl ->]].
      * destruct (FirstCountry.is_ascii_lower y); now left.
      * rewrite Hl. right. now left.
    + intros [t [Ht Hin]]. apply (IH Hal') in Ht.
      destruct (FirstCountry.is_ascii_lower y) eqn:Hl.
      * destruct Hin as [<-|[<-|[]]]; cbn [lower]; rewrite Ht.
        -- now rewrite Hlow.
        -- now rewrite (Hup eq_refl).
      * destruct Hin as [<-|[]]. cbn [lower]. now rewrite Ht, Hlow.
Qed.

Lemma is_placeholder_case_variants (c : string) :
  FirstCountry.is_placeholder c = true
  <-> c = "" \/ In c (FirstCountry.case_variants "empty")
      \/ In c (FirstCountry.case_variants "<empty>").
Proof.
  unfold FirstCountry.is_placeholder.
  rewrite !orb_true_iff, !String.eqb_eq.
  rewrite <- (lower_case_variants "empty"), <- (lower_case_variants "<empty>").
  - tauto.
  - cbn [list_ascii_of_string]. repeat constructor; simpl; tauto.
  - cbn [list_ascii_of_string]. repeat constructor; simpl; tauto.
Qed.

(** C3.  The scan passes over an entry only when the entry is the empty
    field or one of the placeholder tokens in any case; at the first entry
    that is neither it stops, and the first country is the first token of
    that entry's comma-separated list with the white space around it
    removed, whatever that token is.  When every entry is passed over there
    is no first country. *)
Theorem first_country_scan_stops_at_first_candidate :
  (forall (skipped : list string) (c : string) (rest : list string),
      Forall (fun e => FirstCountry.is_placeholder e = true) skipped ->
      FirstCountry.is_placeholder c = false ->
      exists tok toks,
        split "," c = tok :: toks
        /\ FirstCountry.scan (skipped ++ c :: rest) = Ok (Some (strip tok))
        /\ FirstCountry.scan_mark (skipped ++ c :: rest) = Ok (Some (strip tok)))
  /\ (forall cs : list string,
         Forall (fun e => FirstCountry.is_placeholder e = true) cs ->
         FirstCountry.scan cs = Ok None /\ FirstCountry.scan_mark cs = Ok None)
  /\ (forall c : string,
         FirstCountry.is_placeholder c = true
         <-> c = "" \/ In c (FirstCountry.case_variants "empty")
             \/ In c (FirstCountry.case_variants "<empty>")).
Proof.
  split; [|split; [|exact is_placeholder_case_variants]].
  - intros skipped c rest Hskip Hc.
    destruct (split "," c) as [|tok toks] eqn:Hsplit;
      [now apply split_not_nil in Hsplit|].
    exists tok, toks. split; [reflexivity|].
    rewrite scan_mark_scan, (scan_skips_placeholders _ _ Hskip).
    cbn [FirstCountry.scan].
    rewrite scan_guard_placeholder, Hc, Hsplit. split; reflexivity.
  - intros cs Hcs. rewrite scan_mark_scan.
    rewrite <- (app_nil_r cs), (scan_skips_placeholders _ _ Hcs).
    split; reflexivity.
Qed.

Lemma first_country_scan_stops_at_first_candidate_witness :
  FirstCountry.countries "<EMPTY> ->  -> Empty -> ,FR -> FR"
  = ["<EMPTY>"; ""; "Empty"; ",FR"; "FR"]
  /\ exists tok toks,
      split "," ",FR" = tok :: toks
      /\ FirstCountry.scan (["<EMPTY>"; ""; "Empty"] ++ ",FR" :: ["FR"])
         = Ok (Some (strip tok))
      /\ FirstCountry.scan_mark (["<EMPTY>"; ""; "Empty"] ++ ",FR" :: ["FR"])
         = Ok (Some (strip tok)).
Proof.
  split; [reflexivity|].
  apply (proj1 first_country_scan_stops_at_first_candidate
           ["<EMPTY>"; ""; "Empty"] ",FR" ["FR"]).
  - repeat constructor.
  - reflexivity.
Defined.

(** The first token may be blank: the scan stops there all the same. *)
Example scan_blank_first_token :
  FirstCountry.first_country (PyStr "<EMPTY> ->  -> Empty -> ,FR -> FR")
  = Ok (Some (Some ""))
  /\ FirstCountry.started_in_france (PyStr "<EMPTY> ->  -> Empty -> ,FR -> FR")
     = Ok false.
Proof. split; reflexivity. Qed.

(** ** The cohort filter *)

Lemma with_min_year_In (to_numeric : string -> option Z)
      (rows : list Visualize.seq_row) (r : Visualize.seq_row) (y : Z) :
  In (r, y) (Visualize.with_min_year to_numeric rows)
  <-> In r rows /\ Visualize.min_year to_numeric r = Some y.
Proof.
  induction rows as [|r0 rows IH]; cbn [Visualize.with_min_year].
  - simpl. tauto.
  - destruct (Visualize.min_year to_numeric r0) as [y0|] eqn:E.
    + cbn [In]. rewrite IH. split.
      * intros [H|[H1 H2]]; [injection H as -> ->; auto | auto].
      * intros [[->|H1] H2]; [left; congruence | right; auto].
    + rewrite IH. cbn [In]. split.
      * intros [H1 H2]; auto.
      * intros [[->|H1] H2]; [congruence | auto].
Qed.

(** A sequence whose first entry is the string FR has FR as its first
    country by the scan. *)
Lemma first_entry_france_started_in_france (cs : string) (rest : list string) :
  split " -> " cs = "FR" :: rest ->
  FirstCountry.started_in_france (PyStr cs) = Ok true.
Proof.
  intros Hsplit.
  unfold FirstCountry.started_in_france, FirstCountry.first_country.
  destruct (cs =? "") eqn:E.
  - apply String.eqb_eq in E. subst cs. discriminate Hsplit.
  - unfold FirstCountry.countries. rewrite Hsplit. reflexivity.
Qed.

(** C4, as the code has it.  [classify_career] is called on the sequences of
    the rows that hold both sequences, whose first year reads as a number
    above 1990 and whose first entry, cut at the separator, is the string
    FR; on those and on no other.  Each of them has FR as its first country
    by the scan. *)
Theorem classified_rows_start_with_entry_france
        (to_numeric : string -> option Z) (rows : list Visualize.seq_row) :
  (forall (r : Visualize.seq_row) (y : Z),
      In (r, y) (Visualize.fr_starters to_numeric rows)
      <-> In r rows
          /\ exists ys cs y0 ys' cs',
              Visualize.publication_years_sequence r = Some ys
              /\ Visualize.country_codes_sequence r = Some cs
              /\ split " -> " ys = y0 :: ys'
              /\ to_numeric y0 = Some y
              /\ (1990 < y)%Z
              /\ split " -> " cs = "FR" :: cs')
  /\ (forall (r : Visualize.seq_row) (y : Z),
         In (r, y) (Visualize.fr_starters to_numeric rows) ->
         exists cs,
           Visualize.country_codes_sequence r = Some cs
           /\ FirstCountry.started_in_france (PyStr cs) = Ok true)
  /\ Visualize.classify_calls to_numeric rows
     = map (fun ry => Visualize.cell (Visualize.country_codes_sequence (fst ry)))
           (Visualize.fr_starters to_numeric rows).
Proof.
  assert (Hchar : forall r y,
      In (r, y) (Visualize.fr_starters to_numeric rows)
      <-> In r rows
          /\ exists ys cs y0 ys' cs',
              Visualize.publication_years_sequence r = Some ys
              /\ Visualize.country_codes_sequence r = Some cs
              /\ split " -> " ys = y0 :: ys'
              /\ to_numeric y0 = Some y
              /\ (1990 < y)%Z
              /\ split " -> " cs = "FR" :: cs').
  { intros r y.
    unfold Visualize.fr_starters, Visualize.df_post_1990.
    rewrite !filter_In, with_min_year_In, filter_In. cbn [fst snd].
    unfold Visualize.has_sequences, Visualize.min_year, Visualize.first_country.
    rewrite Z.ltb_lt.
    split.
    - intros [[[[Hin Hseq] Hmin] Hy] Hfc].
      split; [exact Hin|].
      destruct (Visualize.publication_years_sequence r) as [ys|]; [|discriminate].
      destruct (Visualize.country_codes_sequence r) as [cs|]; [|discriminate].
      destruct (split " -> " ys) as [|y0 ys'] eqn:Hys; [discriminate|].
      destruct (split " -> " cs) as [|c0 cs'] eqn:Hcs; [discriminate|].
      cbn [hd_error] in Hmin, Hfc. apply String.eqb_eq in Hfc. subst c0.
      exists ys, cs, y0, ys', cs'. repeat split; auto.
    - intros [Hin (ys & cs & y0 & ys' & cs' & Hys & Hcs & Hsy & Hnum & Hy & Hsc)].
      rewrite Hys, Hcs, Hsy, Hsc. cbn [hd_error].
      repeat split; auto. }
  split; [exact Hchar|]. split; [|reflexivity].
  intros r y Hin. apply Hchar in Hin.
  destruct Hin as [_ (ys & cs & y0 & ys' & cs' & _ & Hcs & _ & _ & _ & Hsc)].
  exists cs. split; [exact Hcs|].
  now apply first_entry_france_started_in_france with cs'.
Qed.

Lemma classified_rows_start_with_entry_france_witness :
  In (Visualize.mk_seq_row "A2" (Some "1991 -> 1995") (Some "FR -> DE"), 1991%Z)
     (Visualize.fr_starters parse_decimal
        [Visualize.mk_seq_row "A1" (Some "1990 -> 1995") (Some "FR -> US");
         Visualize.mk_seq_row "A2" (Some "1991 -> 1995") (Some "FR -> DE")]).
Proof.
  apply (proj1 (classified_rows_start_with_entry_france parse_decimal _)).
  split; [right; left; reflexivity|].
  exists "1991 -> 1995", "FR -> DE", "1991", ["1995"], ["DE"].
  repeat split.
Defined.

(** A sequence that starts in 1991 is kept and one that starts in 1990 is
    not. *)
Example year_floor_is_exclusive :
  Visualize.classify_calls parse_decimal
    [Visualize.mk_seq_row "A1" (Some "1990 -> 1995") (Some "FR -> US");
     Visualize.mk_seq_row "A2" (Some "1991 -> 1995") (Some "FR -> DE")]
  = [PyStr "FR -> DE"].
Proof. reflexivity. Qed.

(** C4 as stated fails on a sequence whose first entry lists FR with a
    second country, and on one that opens with a placeholder: the scan
    gives FR as the first country and the first year is above 1990, yet
    [classify_career] is not called. *)
Lemma first_country_france_not_classified :
  FirstCountry.started_in_france (PyStr "FR,GB -> US") = Ok true
  /\ FirstCountry.started_in_france (PyStr "<empty> -> FR") = Ok true
  /\ Visualize.min_year parse_decimal
       (Visualize.mk_seq_row "A1" (Some "1995 -> 1999") (Some "FR,GB -> US"))
     = Some 1995%Z
  /\ Visualize.min_year parse_decimal
       (Visualize.mk_seq_row "A2" (Some "1996 -> 1999") (Some "<empty> -> FR"))
     = Some 1996%Z
  /\ (1990 < 1995)%Z /\ (1990 < 1996)%Z
  /\ Visualize.classify_calls parse_decimal
       [Visualize.mk_seq_row "A1" (Some "1995 -> 1999") (Some "FR,GB -> US");
        Visualize.mk_seq_row "A2" (Some "1996 -> 1999") (Some "<empty> -> FR")]
     = [].
Proof. repeat split. Qed.

(** ** Aggregation and the sequence of an author *)

Lemma insert_by_year_perm (r : ProcessAuthors.record) (l : list ProcessAuthors.record) :
  Permutation (ProcessAuthors.insert_by_year r l) (r :: l).
Proof.
  induction l as [|x l IH]; cbn [ProcessAuthors.insert_by_year].
  - apply Permutation_refl.
  - destruct (fst r <=? fst x)%Z.
    + apply Permutation_refl.
    + eapply perm_trans; [apply perm_skip, IH | apply perm_swap].
Qed.

Lemma sort_by_year_perm (l : list ProcessAuthors.record) :
  Permutation (ProcessAuthors.sort_by_year l) l.
Proof.
  induction l as [|r l IH]; cbn [ProcessAuthors.sort_by_year].
  - constructor.
  - eapply perm_trans; [apply insert_by_year_perm | now apply perm_skip].
Qed.

Lemma insert_by_year_hdrel (a r : ProcessAuthors.record) (l : list ProcessAuthors.record) :
  ProcessAuthors.year_le a r -> HdRel ProcessAuthors.year_le a l ->
  HdRel ProcessAuthors.year_le a (ProcessAuthors.insert_by_year r l).
Proof.
  intros Har Hal. destruct l as [|x l]; cbn [ProcessAuthors.insert_by_year].
  - now constructor.
  - destruct (fst r <=? fst x)%Z; constructor; auto.
    now inversion Hal.
Qed.

Lemma insert_by_year_sorted (r : ProcessAuthors.record) (l : list ProcessAuthors.record) :
  Sorted ProcessAuthors.year_le l -> Sorted ProcessAuthors.year_le (ProcessAuthors.insert_by_year r l).
Proof.
  induction 1 as [|x l Hs IH Hhd]; cbn [ProcessAuthors.insert_by_year].
  - repeat constructor.
  - destruct (fst r <=? fst x)%Z eqn:E.
    + apply Z.leb_le in E. repeat constructor; auto.
    + apply Z.leb_gt in E. constructor; [exact IH|].
      apply insert_by_year_hdrel; [unfold ProcessAuthors.year_le; lia | exact Hhd].
Qed.

Lemma sort_by_year_sorted (l : list ProcessAuthors.record) :
  Sorted ProcessAuthors.year_le (ProcessAuthors.sort_by_year l).
Proof.
  induction l as [|r l IH]; cbn [ProcessAuthors.sort_by_year].
  - constructor.
  - now apply insert_by_year_sorted.
Qed.

(** Inserting leaves the items of each year in their order, the new item
    first among those of its own year. *)
Lemma insert_by_year_filter (y : Z) (r : ProcessAuthors.record)
      (l : list ProcessAuthors.record) :
  filter (ProcessAuthors.in_year y) (ProcessAuthors.insert_by_year r l)
  = filter (ProcessAuthors.in_year y) (r :: l).
Proof.
  induction l as [|x l IH]; cbn [ProcessAuthors.insert_by_year]; [reflexivity|].
  destruct (fst r <=? fst x)%Z eqn:E; [reflexivity|].
  apply Z.leb_gt in E.
  cbn [filter] in *. rewrite IH. unfold ProcessAuthors.in_year.
  destruct (fst r =? y)%Z eqn:Er; [|reflexivity].
  apply Z.eqb_eq in Er.
  destruct (fst x =? y)%Z eqn:Ex; [|reflexivity].
  apply Z.eqb_eq in Ex. lia.
Qed.

Lemma sort_by_year_stable (y : Z) (l : list ProcessAuthors.record) :
  filter (ProcessAuthors.in_year y) (ProcessAuthors.sort_by_year l) = filter (ProcessAuthors.in_year y) l.
Proof.
  induction l as [|r l IH]; cbn [ProcessAuthors.sort_by_year]; [reflexivity|].
  rewrite insert_by_year_filter. cbn [filter]. now rewrite IH.
Qed.

Lemma dict_get_append (a k : string) (v : ProcessAuthors.record)
      (d : ProcessAuthors.author_dict) :
  ProcessAuthors.dict_get a (ProcessAuthors.dict_append k v d)
  = if a =? k then Some (ProcessAuthors.records_of k d ++ [v])
    else ProcessAuthors.dict_get a d.
Proof.
  unfold ProcessAuthors.records_of.
  induction d as [|[k' l] d IH];
    cbn [ProcessAuthors.dict_append ProcessAuthors.dict_get].
  - destruct (a =? k); reflexivity.
  - destruct (k =? k') eqn:Ekk'; cbn [ProcessAuthors.dict_get].
    + apply String.eqb_eq in Ekk'. subst k'.
      destruct (a =? k); reflexivity.
    + rewrite IH. destruct (a =? k) eqn:Eak; [|reflexivity].
      apply String.eqb_eq in Eak. subst a. now rewrite Ekk'.
Qed.

Lemma records_of_append (a k : string) (v : ProcessAuthors.record)
      (d : ProcessAuthors.author_dict) :
  ProcessAuthors.records_of a (ProcessAuthors.dict_append k v d)
  = if k =? a then ProcessAuthors.records_of a d ++ [v]
    else ProcessAuthors.records_of a d.
Proof.
  unfold ProcessAuthors.records_of at 1. rewrite dict_get_append.
  rewrite (String.eqb_sym k a).
  destruct (a =? k) eqn:E; [|reflexivity].
  apply String.eqb_eq in E. now subst.
Qed.

Lemma records_of_aggregate (a : string) (rows : list (string * ProcessAuthors.record)) :
  forall d : ProcessAuthors.author_dict,
    ProcessAuthors.records_of a (ProcessAuthors.aggregate rows d)
    = ProcessAuthors.records_of a d ++ map snd (filter (fun e => fst e =? a) rows).
Proof.
  unfold ProcessAuthors.aggregate.
  induction rows as [|e rows IH]; intros d; cbn [fold_left filter].
  - now rewrite app_nil_r.
  - rewrite IH, records_of_append.
    destruct (fst e =? a); [|reflexivity].
    cbn [map]. now rewrite <- app_assoc.
Qed.

Lemma dict_append_keys (a k : string) (v : ProcessAuthors.record)
      (d : ProcessAuthors.author_dict) :
  In a (map fst (ProcessAuthors.dict_append k v d)) <-> a = k \/ In a (map fst d).
Proof.
  induction d as [|[k' l] d IH]; cbn [ProcessAuthors.dict_append].
  - simpl. intuition.
  - destruct (k =? k') eqn:E.
    + apply String.eqb_eq in E. subst k'. simpl. intuition.
    + cbn [map In fst]. rewrite IH. intuition.
Qed.

Lemma dict_append_NoDup (k : string) (v : ProcessAuthors.record)
      (d : ProcessAuthors.author_dict) :
  NoDup (map fst d) -> NoDup (map fst (ProcessAuthors.dict_append k v d)).
Proof.
  induction d as [|[k' l] d IH]; cbn [ProcessAuthors.dict_append]; intros Hnd.
  - repeat constructor. intros [].
  - destruct (k =? k') eqn:E; [exact Hnd|].
    cbn [map fst] in *. inversion Hnd as [|? ? Hnotin Hnd']; subst.
    constructor; [|now apply IH].
    rewrite dict_append_keys. intros [->|Hin]; [|contradiction].
    now rewrite String.eqb_refl in E.
Qed.

Lemma aggregate_NoDup (rows : list (string * ProcessAuthors.record)) :
  forall d : ProcessAuthors.author_dict,
    NoDup (map fst d) -> NoDup (map fst (ProcessAuthors.aggregate rows d)).
Proof.
  unfold ProcessAuthors.aggregate.
  induction rows as [|e rows IH]; intros d Hnd; cbn [fold_left]; [exact Hnd|].
  now apply IH, dict_append_NoDup.
Qed.

Lemma dict_get_In (a : string) (l : list ProcessAuthors.record)
      (d : ProcessAuthors.author_dict) :
  ProcessAuthors.dict_get a d = Some l -> In (a, l) d.
Proof.
  induction d as [|[k' l'] d IH]; cbn [ProcessAuthors.dict_get]; [discriminate|].
  destruct (a =? k') eqn:E.
  - apply String.eqb_eq in E. subst. intros H. injection H as ->. now left.
  - intros H. right. now apply IH.
Qed.

Lemma In_dict_get (a : string) (l : list ProcessAuthors.record)
      (d : ProcessAuthors.author_dict) :
  NoDup (map fst d) -> In (a, l) d -> ProcessAuthors.dict_get a d = Some l.
Proof.
  induction d as [|[k' l'] d IH]; cbn [ProcessAuthors.dict_get map fst];
    intros Hnd Hin; [destruct Hin|].
  inversion Hnd as [|? ? Hnotin Hnd']; subst.
  destruct Hin as [Heq|Hin].
  - injection Heq as -> ->. now rewrite String.eqb_refl.
  - destruct (a =? k') eqn:E; [|now apply IH].
    apply String.eqb_eq in E. subst k'.
    elim Hnotin. apply in_map_iff. exists (a, l). now split.
Qed.

Lemma clean_chunk_app (to_numeric : string -> option Z)
      (c1 c2 : list ProcessAuthors.raw_row) :
  ProcessAuthors.clean_chunk to_numeric (c1 ++ c2)
  = ProcessAuthors.clean_chunk to_numeric c1
    ++ ProcessAuthors.clean_chunk to_numeric c2.
Proof.
  induction c1 as [|r c1 IH]; cbn [app ProcessAuthors.clean_chunk]; [reflexivity|].
  destruct (ProcessAuthors.clean_row to_numeric r); rewrite IH; reflexivity.
Qed.

Lemma process_chunks_author_data (to_numeric : string -> option Z)
      (chunks : list (list ProcessAuthors.raw_row)) :
  forall (st : ProcessAuthors.state) (i : nat),
    ProcessAuthors.author_data (ProcessAuthors.process_chunks to_numeric st i chunks)
    = ProcessAuthors.aggregate
        (ProcessAuthors.clean_chunk to_numeric (List.concat chunks))
        (ProcessAuthors.author_data st).
Proof.
  induction chunks as [|chunk chunks IH]; intros st i;
    cbn [ProcessAuthors.process_chunks List.concat]; [reflexivity|].
  rewrite IH, clean_chunk_app. unfold ProcessAuthors.process_chunk.
  cbn [ProcessAuthors.author_data]. unfold ProcessAuthors.aggregate.
  now rewrite fold_left_app.
Qed.


Lemma run_records_of (to_numeric : string -> option Z)
      (chunks : list (list ProcessAuthors.raw_row)) (a : string) :
  ProcessAuthors.records_of a
    (ProcessAuthors.author_data
       (ProcessAuthors.process_chunks to_numeric ProcessAuthors.initial 0 chunks))
  = ProcessAuthors.events_of to_numeric a chunks.
Proof.
  rewrite process_chunks_author_data, records_of_aggregate. reflexivity.
Qed.

(** C7.  In the output of a run, the entries of every author are in
    non-decreasing order of year; they are a permutation of the events of
    that author, taken over all chunks; and the events of any one year
    stand in the order in which they arrived.  Every author with an event
    has such a sequence. *)
Theorem author_sequence_is_stable_sort
        (to_numeric : string -> option Z)
        (chunks : list (list ProcessAuthors.raw_row)) :
  (forall (a : string) (entries : list ProcessAuthors.record),
      In (a, entries)
         (ProcessAuthors.author_sequences
            (ProcessAuthors.author_data
               (ProcessAuthors.process_chunks to_numeric ProcessAuthors.initial 0 chunks))) ->
      Sorted ProcessAuthors.year_le entries
      /\ Permutation entries (ProcessAuthors.events_of to_numeric a chunks)
      /\ forall y : Z,
          filter (ProcessAuthors.in_year y) entries
          = filter (ProcessAuthors.in_year y)
                   (ProcessAuthors.events_of to_numeric a chunks))
  /\ (forall a : string,
         ProcessAuthors.events_of to_numeric a chunks <> [] ->
         exists entries,
           In (a, entries)
              (ProcessAuthors.author_sequences
                 (ProcessAuthors.author_data
                    (ProcessAuthors.process_chunks to_numeric ProcessAuthors.initial 0 chunks))))
  /\ ProcessAuthors.written
       (ProcessAuthors.create_author_sequences_optimized to_numeric chunks)
     = map ProcessAuthors.to_result_row
           (ProcessAuthors.author_sequences
              (ProcessAuthors.author_data
                 (ProcessAuthors.process_chunks to_numeric ProcessAuthors.initial 0 chunks))).
Proof.
  pose proof (run_records_of to_numeric chunks) as Hrec.
  set (d := ProcessAuthors.author_data
              (ProcessAuthors.process_chunks to_numeric ProcessAuthors.initial 0 chunks))
    in *.
  assert (Hnd : NoDup (map fst d)).
  { subst d. rewrite process_chunks_author_data.
    apply aggregate_NoDup. constructor. }
  split; [|split; [|reflexivity]].
  - intros a entries Hin.
    unfold ProcessAuthors.author_sequences in Hin.
    apply in_map_iff in Hin. destruct Hin as [[k l] [Heq Hin]].
    cbn [fst snd] in Heq. injection Heq as -> <-.
    assert (Hl : l = ProcessAuthors.events_of to_numeric a chunks).
    { rewrite <- Hrec. unfold ProcessAuthors.records_of.
      now rewrite (In_dict_get _ _ _ Hnd Hin). }
    subst l. split; [apply sort_by_year_sorted|].
    split; [apply sort_by_year_perm|].
    intros y. apply sort_by_year_stable.
  - intros a Hne. rewrite <- Hrec in Hne.
    unfold ProcessAuthors.records_of in Hne.
    destruct (ProcessAuthors.dict_get a d) as [l|] eqn:E; [|congruence].
    exists (ProcessAuthors.sort_by_year l).
    unfold ProcessAuthors.author_sequences. apply in_map_iff.
    exists (a, l). split; [reflexivity | now apply dict_get_In].
Qed.

Lemma author_sequence_is_stable_sort_witness :
  Sorted ProcessAuthors.year_le
         [(1998, "FR,GB"); (1998, "US"); (2001, "FR")]%Z
  /\ Permutation [(1998, "FR,GB"); (1998, "US"); (2001, "FR")]%Z
       (ProcessAuthors.events_of parse_decimal "A1"
          [[ProcessAuthors.mk_raw_row (Some "A1") (Some "2001") (Some "{FR}");
            ProcessAuthors.mk_raw_row (Some "A2") (Some "1999") None;
            ProcessAuthors.mk_raw_row (Some "A1") (Some "1998") (Some "{FR,GB}")];
           [ProcessAuthors.mk_raw_row (Some "A1") (Some "1998") (Some "{US}")]])
  /\ forall y : Z,
      filter (ProcessAuthors.in_year y)
             [(1998, "FR,GB"); (1998, "US"); (2001, "FR")]%Z
      = filter (ProcessAuthors.in_year y)
          (ProcessAuthors.events_of parse_decimal "A1"
             [[ProcessAuthors.mk_raw_row (Some "A1") (Some "2001") (Some "{FR}");
               ProcessAuthors.mk_raw_row (Some "A2") (Some "1999") None;
               ProcessAuthors.mk_raw_row (Some "A1") (Some "1998") (Some "{FR,GB}")];
              [ProcessAuthors.mk_raw_row (Some "A1") (Some "1998") (Some "{US}")]]).
Proof.
  apply (proj1 (author_sequence_is_stable_sort parse_decimal
    [[ProcessAuthors.mk_raw_row (Some "A1") (Some "2001") (Some "{FR}");
      ProcessAuthors.mk_raw_row (Some "A2") (Some "1999") None;
      ProcessAuthors.mk_raw_row (Some "A1") (Some "1998") (Some "{FR,GB}")];
     [ProcessAuthors.mk_raw_row (Some "A1") (Some "1998") (Some "{US}")]])
    "A1" [(1998, "FR,GB"); (1998, "US"); (2001, "FR")]%Z).
  left. reflexivity.
Defined.

(** ** Rows that are dropped *)







(** ** Cohort percentages *)

Lemma category_eqb_eq (a b : category) : category_eqb a b = true <-> a = b.
Proof. destruct a, b; simpl; split; congruence. Qed.

Lemma has_category_In (c : category) (l : list category) :
  Visualize.has_category c l = true <-> In c l.
Proof.
  unfold Visualize.has_category. rewrite existsb_exists. split.
  - intros [x [Hx Heq]]. apply category_eqb_eq in Heq. now subst.
  - intros H. exists c. split; [exact H | now apply category_eqb_eq].
Qed.

Lemma insert_year_In (a y : Z) (l : list Z) :
  In a (Visualize.insert_year y l) <-> a = y \/ In a l.
Proof.
  induction l as [|x l IH]; cbn [Visualize.insert_year].
  - simpl. intuition.
  - destruct (y <? x)%Z; [simpl; intuition|].
    destruct (y =? x)%Z eqn:E.
    + apply Z.eqb_eq in E. subst. simpl. intuition.
    + cbn [In]. rewrite IH. intuition.
Qed.

Lemma group_keys_In (a : Z) (ys : list Z) :
  In a (Visualize.group_keys ys) <-> In a ys.
Proof.
  induction ys as [|y ys IH]; [reflexivity|].
  cbn [Visualize.group_keys fold_right].
  fold (Visualize.group_keys ys).
  rewrite insert_year_In, IH. simpl. intuition.
Qed.

Lemma list_sum_head (a : nat) (l : list nat) :
  list_sum (a :: l) = a + list_sum l.
Proof. reflexivity. Qed.

(** The number of rows of one start year. *)
Lemma indicator_sum (x : category) (l : list category) :
  NoDup l -> In x l ->
  list_sum (map (fun c => if category_eqb x c then 1 else 0) l) = 1.
Proof.
  induction 1 as [|c l Hnotin Hnd IH]; intros Hin; [destruct Hin|].
  cbn [map]. rewrite !list_sum_head.
  destruct (category_eqb x c) eqn:E.
  - apply category_eqb_eq in E. subst c.
    assert (Hz : list_sum (map (fun c => if category_eqb x c then 1 else 0) l) = 0).
    { clear IH Hin Hnd. induction l as [|c l IHl]; [reflexivity|].
      cbn [map]. rewrite !list_sum_head.
      destruct (category_eqb x c) eqn:E.
      - apply category_eqb_eq in E. subst c. elim Hnotin. now left.
      - rewrite IHl; [reflexivity|]. intros H. apply Hnotin. now right. }
    now rewrite Hz.
  - destruct Hin as [->|Hin].
    + assert (category_eqb x x = true) by now apply category_eqb_eq.
      congruence.
    + now rewrite IH.
Qed.

Lemma list_sum_map_add {A : Type} (f g : A -> nat) (l : list A) :
  list_sum (map (fun c => f c + g c) l)
  = list_sum (map f l) + list_sum (map g l).
Proof.
  induction l as [|c l IH]; [reflexivity|]. cbn [map]. rewrite !list_sum_head. lia.
Qed.

Lemma list_sum_map_zero {A : Type} (l : list A) :
  list_sum (map (fun _ => 0) l) = 0.
Proof.
  induction l as [|c l IH]; [reflexivity|].
  cbn [map]. now rewrite list_sum_head, IH.
Qed.

Lemma count_sum_over_columns (y : Z) (l : list category)
      (cl : list (Z * category)) :
  NoDup l ->
  Forall (fun yc => In (snd yc) l) cl ->
  list_sum (map (fun c => Visualize.count y c cl) l)
  = List.length (filter (fun yc => (fst yc =? y)%Z) cl).
Proof.
  intros Hnd. induction 1 as [|yc cl Hin _ IH].
  - unfold Visualize.count. cbn [filter List.length]. apply list_sum_map_zero.
  - unfold Visualize.count in *. cbn [filter].
    destruct (fst yc =? y)%Z.
    + rewrite (map_ext _ (fun c =>
        (if category_eqb (snd yc) c then 1 else 0)
        + List.length (filter (fun yc0 => (fst yc0 =? y)%Z && category_eqb (snd yc0) c) cl))).
      * rewrite list_sum_map_add, IH, (indicator_sum _ _ Hnd Hin). reflexivity.
      * intros c. cbn [andb]. destruct (category_eqb (snd yc) c); reflexivity.
    + exact IH.
Qed.

Lemma count_zero_when_absent (y : Z) (c : category) (cl : list (Z * category)) :
  ~ In c (map snd cl) -> Visualize.count y c cl = 0.
Proof.
  unfold Visualize.count. induction cl as [|yc cl IH]; intros Hnotin; [reflexivity|].
  cbn [filter]. destruct (category_eqb (snd yc) c) eqn:E.
  - apply category_eqb_eq in E. elim Hnotin. left. exact E.
  - rewrite andb_false_r. apply IH. intros H. apply Hnotin. now right.
Qed.

Lemma bucket_not_empty (y : Z) (cl : list (Z * category)) :
  In y (map fst cl) ->
  0 < List.length (filter (fun yc => (fst yc =? y)%Z) cl).
Proof.
  intros Hin. apply in_map_iff in Hin. destruct Hin as [yc [Heq Hin]].
  assert (H : In yc (filter (fun yc => (fst yc =? y)%Z) cl)).
  { apply filter_In. split; [exact Hin | now apply Z.eqb_eq]. }
  destruct (filter (fun yc => (fst yc =? y)%Z) cl); [destruct H | simpl; lia].
Qed.

Lemma Qsum_of_nat {A : Type} (f : A -> nat) (l : list A) :
  (fold_right Qplus 0 (map (fun c => inject_Z (Z.of_nat (f c))) l)
   == inject_Z (Z.of_nat (list_sum (map f l))))%Q.
Proof.
  induction l as [|c l IH]; [reflexivity|].
  cbn [map fold_right]. rewrite list_sum_head.
  rewrite IH, Nat2Z.inj_add, inject_Z_plus. reflexivity.
Qed.

Lemma Qsum_ext {A : Type} (f g : A -> Q) (l : list A) :
  (forall c, In c l -> (f c == g c)%Q) ->
  (fold_right Qplus 0 (map f l) == fold_right Qplus 0 (map g l))%Q.
Proof.
  induction l as [|c l IH]; intros H; [reflexivity|].
  cbn [map fold_right].
  rewrite (H c (or_introl eq_refl)), IH; [reflexivity|].
  intros c' Hc'. apply H. now right.
Qed.

Lemma Qsum_share {A : Type} (f : A -> Q) (t : Q) (l : list A) :
  (fold_right Qplus 0 (map (fun c => f c / t * 100) l)
   == fold_right Qplus 0 (map f l) / t * 100)%Q.
Proof.
  induction l as [|c l IH]; cbn [map fold_right].
  - unfold Qdiv. ring.
  - rewrite IH. unfold Qdiv. ring.
Qed.

Lemma apply_classify_ok (l : list (Visualize.seq_row * Z)) :
  Forall (fun ry => exists cs,
              Visualize.country_codes_sequence (fst ry) = Some cs) l ->
  exists cl,
    Visualize.apply_classify l = Ok cl
    /\ map fst cl = map snd l
    /\ Forall (fun yc => In (snd yc) Visualize.all_categories) cl.
Proof.
  induction 1 as [|ry l [cs Hcs] _ [cl [Hcl [Hys Hcats]]]].
  - exists []. repeat split. constructor.
  - destruct (classify_career_on_string cs) as [c [Hc Hin]].
    exists ((snd ry, c) :: cl).
    cbn [Visualize.apply_classify]. rewrite Hcs. cbn [Visualize.cell].
    rewrite Hc. cbn [bind]. rewrite Hcl. cbn [bind map fst].
    repeat split; [now rewrite Hys | now constructor].
Qed.

Lemma fr_starters_have_sequence (to_numeric : string -> option Z)
      (rows : list Visualize.seq_row) :
  Forall (fun ry => exists cs,
              Visualize.country_codes_sequence (fst ry) = Some cs)
         (Visualize.fr_starters to_numeric rows).
Proof.
  apply Forall_forall. intros ry Hin.
  unfold Visualize.fr_starters in Hin. apply filter_In in Hin.
  destruct Hin as [_ Hfc]. unfold Visualize.first_country in Hfc.
  destruct (Visualize.country_codes_sequence (fst ry)) as [cs|];
    [now exists cs | discriminate].
Qed.

(** A run of the cohort filter and the classifier never raises. *)
Lemma create_migration_visual_returns (to_numeric : string -> option Z)
      (rows : list Visualize.seq_row) :
  exists r, Visualize.create_migration_visual to_numeric rows = Ok r.
Proof.
  unfold Visualize.create_migration_visual.
  pose proof (fr_starters_have_sequence to_numeric rows) as H.
  destruct (Visualize.fr_starters to_numeric rows) as [|ry l]; [now eexists|].
  destruct (apply_classify_ok _ H) as [cl [Hcl _]].
  rewrite Hcl. now eexists.
Qed.

Lemma all_categories_NoDup : NoDup Visualize.all_categories.
Proof.
  unfold Visualize.all_categories.
  repeat (constructor; [simpl; intuition discriminate|]). constructor.
Qed.

Lemma trend_columns_NoDup (cl : list (Z * category)) :
  NoDup (Visualize.columns (Visualize.cohort_trends cl)).
Proof.
  cbn [Visualize.cohort_trends Visualize.columns].
  apply NoDup_filter. unfold Visualize.categories_by_label.
  repeat (constructor; [simpl; intuition discriminate|]). constructor.
Qed.

Lemma trend_columns_In (c : category) (cl : list (Z * category)) :
  In c (Visualize.columns (Visualize.cohort_trends cl)) <-> In c (map snd cl).
Proof.
  cbn [Visualize.cohort_trends Visualize.columns].
  rewrite filter_In, has_category_In. split; [tauto|].
  intros H. split; [|exact H].
  unfold Visualize.categories_by_label. destruct c; simpl; tauto.
Qed.

(** The sum of a row of the counts frame is the size of the cohort. *)
Lemma trend_row_sum (y : Z) (cl : list (Z * category)) :
  (Visualize.row_sum (Visualize.cohort_trends cl) y
   == inject_Z (Z.of_nat (List.length (filter (fun yc => (fst yc =? y)%Z) cl))))%Q.
Proof.
  unfold Visualize.row_sum.
  change (Visualize.value (Visualize.cohort_trends cl) y)
    with (fun c => inject_Z (Z.of_nat (Visualize.count y c cl))).
  rewrite Qsum_of_nat, count_sum_over_columns; [reflexivity | |].
  - apply trend_columns_NoDup.
  - apply Forall_forall. intros yc Hin. apply trend_columns_In.
    now apply in_map.
Qed.

(** Each cell of the percentages frame is the share of its category in the
    cohort, times 100. *)
Lemma cohort_percentages_value (y : Z) (c : category) (cl : list (Z * category)) :
  (Visualize.value (Visualize.cohort_percentages cl) y c
   == inject_Z (Z.of_nat (Visualize.count y c cl))
      / inject_Z (Z.of_nat (List.length (filter (fun yc => (fst yc =? y)%Z) cl)))
      * 100)%Q.
Proof.
  unfold Visualize.cohort_percentages, Visualize.reindex_columns.
  cbn [Visualize.value].
  change (Visualize.columns (Visualize.percent_of_row (Visualize.cohort_trends cl)))
    with (Visualize.columns (Visualize.cohort_trends cl)).
  destruct (Visualize.has_category c (Visualize.columns (Visualize.cohort_trends cl)))
    eqn:E.
  - unfold Visualize.percent_of_row. cbn [Visualize.value].
    rewrite trend_row_sum. reflexivity.
  - assert (Hz : Visualize.count y c cl = 0).
    { apply count_zero_when_absent. rewrite <- trend_columns_In.
      rewrite <- has_category_In. congruence. }
    rewrite Hz. unfold Qdiv. change (inject_Z (Z.of_nat 0)) with 0%Q. ring.
Qed.

(** C8.  In the frame of percentages that a run produces, the columns are
    the six career categories, whichever of them occur; and for every start
    year of the index, the cell of a category is its share of the cohort
    times 100, which is 0 for a category with no author in the cohort, and
    the six cells add up to 100.  Percentages are exact rationals here. *)
Theorem cohort_percentages_sum_to_100
        (to_numeric : string -> option Z) (rows : list Visualize.seq_row)
        (P : Visualize.frame) :
  Visualize.create_migration_visual to_numeric rows = Ok (Some P) ->
  Visualize.columns P = Visualize.all_categories
  /\ NoDup (Visualize.columns P)
  /\ List.length (Visualize.columns P) = 6
  /\ exists cl,
      Visualize.apply_classify (Visualize.fr_starters to_numeric rows) = Ok cl
      /\ (forall y, In y (Visualize.index P) <-> In y (map fst cl))
      /\ forall y, In y (Visualize.index P) ->
           (fold_right Qplus 0 (map (Visualize.value P y) (Visualize.columns P))
            == 100)%Q
           /\ (forall c, In c (Visualize.columns P) ->
                 (Visualize.value P y c
                  == inject_Z (Z.of_nat (Visualize.count y c cl))
                     / inject_Z (Z.of_nat (List.length
                                  (filter (fun yc => (fst yc =? y)%Z) cl)))
                     * 100)%Q)
           /\ (forall c, In c (Visualize.columns P) ->
                 Visualize.count y c cl = 0 ->
                 (Visualize.value P y c == 0)%Q).
Proof.
  unfold Visualize.create_migration_visual. intros Hrun.
  pose proof (fr_starters_have_sequence to_numeric rows) as Hseq.
  destruct (apply_classify_ok _ Hseq) as [cl [Hcl [_ Hcats]]].
  destruct (Visualize.fr_starters to_numeric rows) as [|ry l] eqn:Hfs;
    [discriminate|].
  rewrite Hcl in Hrun. cbn [bind] in Hrun. injection Hrun as <-.
  split; [reflexivity|]. split; [apply all_categories_NoDup|].
  split; [reflexivity|].
  exists cl. split; [exact Hcl|].
  assert (Hidx : forall y,
             In y (Visualize.index (Visualize.cohort_percentages cl))
             <-> In y (map fst cl)).
  { intros y. cbn [Visualize.cohort_percentages Visualize.reindex_columns
                   Visualize.percent_of_row Visualize.cohort_trends Visualize.index].
    apply group_keys_In. }
  split; [exact Hidx|].
  intros y Hy. apply Hidx in Hy.
  pose proof (bucket_not_empty y cl Hy) as Hpos.
  change (Visualize.columns (Visualize.cohort_percentages cl))
    with Visualize.all_categories.
  split; [|split].
  - rewrite (Qsum_ext _ _ _ (fun c _ => cohort_percentages_value y c cl)).
    rewrite (Qsum_share (fun c => inject_Z (Z.of_nat (Visualize.count y c cl)))).
    rewrite Qsum_of_nat.
    rewrite (count_sum_over_columns y _ cl all_categories_NoDup Hcats).
    field. intros H.
    assert (Hz : inject_Z (Z.of_nat (List.length
                   (filter (fun yc => (fst yc =? y)%Z) cl))) = inject_Z 0).
    { unfold inject_Z in *. unfold Qeq in H. simpl in H. f_equal. lia. }
    injection Hz as Hz. lia.
  - intros c _. apply cohort_percentages_value.
  - intros c _ Hzero. rewrite cohort_percentages_value, Hzero.
    unfold Qdiv. change (inject_Z (Z.of_nat 0)) with 0%Q. ring.
Qed.

Lemma cohort_percentages_sum_to_100_witness :
  exists P,
    Visualize.create_migration_visual parse_decimal
      [Visualize.mk_seq_row "A1" (Some "1995 -> 1999") (Some "FR -> US -> FR");
       Visualize.mk_seq_row "A2" (Some "1995") (Some "FR");
       Visualize.mk_seq_row "A3" (Some "1995 -> 2001") (Some "FR -> DE");
       Visualize.mk_seq_row "A4" (Some "1991 -> 2001") (Some "FR -> FR,DE")]
    = Ok (Some P)
    /\ Visualize.index P = [1991; 1995]%Z
    /\ Visualize.columns P = Visualize.all_categories
    /\ (fold_right Qplus 0 (map (Visualize.value P 1995) (Visualize.columns P))
        == 100)%Q.
Proof.
  exists (Visualize.cohort_percentages
            [(1995, RoundTripViaUS); (1995, StayedInFrance);
             (1995, ExpatriateAbroadNoUS); (1991, ComplexOngoing)]%Z).
  split; [reflexivity|]. split; [reflexivity|].
  destruct (cohort_percentages_sum_to_100 parse_decimal
              [Visualize.mk_seq_row "A1" (Some "1995 -> 1999") (Some "FR -> US -> FR");
               Visualize.mk_seq_row "A2" (Some "1995") (Some "FR");
               Visualize.mk_seq_row "A3" (Some "1995 -> 2001") (Some "FR -> DE");
               Visualize.mk_seq_row "A4" (Some "1991 -> 2001") (Some "FR -> FR,DE")]
              (Visualize.cohort_percentages
                 [(1995, RoundTripViaUS); (1995, StayedInFrance);
                  (1995, ExpatriateAbroadNoUS); (1991, ComplexOngoing)]%Z)
              eq_refl)
    as [Hcols [_ [_ [cl [_ [_ Hsum]]]]]].
  split; [exact Hcols|].
  apply Hsum. right. left. reflexivity.
Defined.
